(** * Verification of [backend/utils.py]: the recipe chatbot's completion wrapper

    The module holds a prompt constant, a model name read from the process
    environment when the module is imported, and one function,
    [get_agent_response], which makes sure a conversation starts with a
    system message, hands it to the completion provider and returns the
    conversation with the provider's reply appended.

    Python values are embedded as follows.
    - [str]: the [string] of its UTF-8 bytes; [chars] gives its code points.
    - [Dict[str, str]] (a message): [gmap string string].
    - [List[Dict[str, str]]]: a reference into a store of list objects, so
      that the alias [current_messages = messages] and the fresh lists built
      by [+] are told apart.
    - the provider's response: a JSON-like value [pyval].
    - exceptions: the type [exn]; a statement either returns a value or
      raises, and a raised exception leaves the enclosing function. *)

From Stdlib Require Import ZArith NArith String Ascii List.
From stdpp Require Import base option list gmap strings fin_maps.

Local Open Scope string_scope.
Local Open Scope list_scope.

(** ** Python strings: [str.strip]

    A [str] is a sequence of code points. It is embedded as the [string] of
    its UTF-8 bytes (a surrogate code point is encoded like any other, as
    with Python's [surrogatepass]): two [str] are equal exactly when their
    bytes are, and the bytes of a concatenation are the bytes of its parts.
    What depends on the code points, [strip] and the subscript of a [str],
    goes through [chars]. *)

(** The bytes 0x80 to 0xBF, which continue a code point. *)
Definition is_continuation (b : ascii) : bool :=
  let n := N_of_ascii b in (128 <=? n)%N && (n <? 192)%N.

Definition starts_with_continuation (s : string) : bool :=
  match s with
  | EmptyString => false
  | String b _ => is_continuation b
  end.

Fixpoint all_continuation (s : string) : bool :=
  match s with
  | EmptyString => true
  | String b s' => is_continuation b && all_continuation s'
  end.

(** The code points of a [str], each as the bytes that encode it: a code
    point starts at every byte that is no continuation byte. *)
Fixpoint chars (s : string) : list string :=
  match s with
  | EmptyString => []
  | String b s' =>
      match chars s' with
      | [] => [String b EmptyString]
      | g :: gs =>
          if starts_with_continuation g then String b g :: gs
          else String b EmptyString :: g :: gs
      end
  end.

(** The [str] made of the given code points, one after the other. *)
Definition join (cs : list string) : string := foldr String.append EmptyString cs.

Definition bytes (s : string) : list N := map N_of_ascii (list_ascii_of_string s).

(** The number of the code point that the bytes [ch] encode (its
    continuation bytes taken as such); U+FFFD when they encode none. *)
Definition codepoint (ch : string) : N :=
  match bytes ch with
  | [b0] => if (b0 <? 128)%N then b0 else 0xFFFD%N
  | [b0; b1] =>
      let n := ((b0 - 192) * 64 + (b1 - 128))%N in
      if ((192 <=? b0) && (b0 <? 224) && (0x80 <=? n))%N then n else 0xFFFD%N
  | [b0; b1; b2] =>
      let n := (((b0 - 224) * 64 + (b1 - 128)) * 64 + (b2 - 128))%N in
      if ((224 <=? b0) && (b0 <? 240) && (0x800 <=? n))%N then n else 0xFFFD%N
  | [b0; b1; b2; b3] =>
      let n := ((((b0 - 240) * 64 + (b1 - 128)) * 64 + (b2 - 128)) * 64 + (b3 - 128))%N in
      if ((240 <=? b0) && (b0 <? 248) && (0x10000 <=? n) && (n <? 0x110000))%N
      then n else 0xFFFD%N
  | _ => 0xFFFD%N
  end.

(** [str.isspace] on one code point: CPython's [_PyUnicode_IsWhitespace]. *)
Definition isspace (n : N) : bool :=
  ((0x09 <=? n) && (n <=? 0x0D))%N || ((0x1C <=? n) && (n <=? 0x20))%N
  || (n =? 0x85)%N || (n =? 0xA0)%N || (n =? 0x1680)%N
  || ((0x2000 <=? n) && (n <=? 0x200A))%N
  || (n =? 0x2028)%N || (n =? 0x2029)%N || (n =? 0x202F)%N
  || (n =? 0x205F)%N || (n =? 0x3000)%N.

(** A sequence without the items at its start that are [sp]. *)
Fixpoint lstrip {A : Type} (sp : A → bool) (xs : list A) : list A :=
  match xs with
  | [] => []
  | x :: xs' => if sp x then lstrip sp xs' else xs
  end.

(** A sequence without the items at its end that are [sp]. *)
Fixpoint rstrip {A : Type} (sp : A → bool) (xs : list A) : list A :=
  match xs with
  | [] => []
  | x :: xs' =>
      match rstrip sp xs' with
      | [] => if sp x then [] else [x]
      | r => x :: r
      end
  end.


(** An encoded code point is white space. *)
Definition space (ch : string) : bool := isspace (codepoint ch).

(** [s.strip()] with no argument, on the embedding of [s]. *)
Definition strip (s : string) : string :=
  join (rstrip space (lstrip space (chars s))).

(** Every code point of [s] is white space. *)
Definition all_space (s : string) : bool := forallb space (chars s).


(** *** The encoding *)

(** The numbers that are code points: up to U+10FFFF. *)
Definition is_codepoint (n : N) : Prop := (n < 0x110000)%N.

(** The UTF-8 bytes of a code point. *)
Definition utf8_bytes (n : N) : list N :=
  if (n <? 0x80)%N then [n]
  else if (n <? 0x800)%N then [192 + n / 64; 128 + n mod 64]%N
  else if (n <? 0x10000)%N then
    [224 + n / 64 / 64; 128 + (n / 64) mod 64; 128 + n mod 64]%N
  else
    [240 + n / 64 / 64 / 64; 128 + (n / 64 / 64) mod 64;
     128 + (n / 64) mod 64; 128 + n mod 64]%N.

Definition utf8_char (n : N) : string :=
  string_of_list_ascii (map ascii_of_N (utf8_bytes n)).

(** The embedding of the [str] of the given code points. *)
Definition utf8 (cps : list N) : string := join (map utf8_char cps).

(** Case analysis on the comparisons of numbers in the goal. *)
Ltac split_comparisons :=
  repeat match goal with
    | |- context [(?a <? ?b)%N] => destruct (N.ltb_spec a b); try lia
    | |- context [(?a <=? ?b)%N] => destruct (N.leb_spec a b); try lia
    end.

(** ** Python values and exceptions *)

(** What a provider response is made of. *)
#[warnings="-register-all"] Inductive pyval : Type :=
  | VNone
  | VBool (b : bool)
  | VInt (n : Z)
  | VStr (s : string)
  | VList (items : list pyval)
  | VDict (items : list (string * pyval)).

(** A store location of a list object. *)
Abbreviation loc := positive.

Inductive exn : Type :=
  | KeyError (key : pyval)
  | IndexError
  | TypeError
  | AttributeError
  (** an exception class of the provider's library (authentication,
      connection, time-out, ...) *)
  | ProviderError (name : string)
  (** not a Python exception: a reference to no object of the store, which
      no Python program holds *)
  | DanglingRef (l : loc).

(** A message of the conversation: a [dict] from [str] to [str]. *)
Abbreviation Message := (gmap string string).

#[global] Instance sum_ret : MRet (sum exn) := λ A a, inr a.
#[global] Instance sum_bind : MBind (sum exn) := λ A B f r,
  match r with
  | inl e => inl e
  | inr a => f a
  end.

(** The index of a sequence of [len] items that the subscript [i] denotes:
    a negative subscript counts from the end. *)
Definition seq_index (len : nat) (i : Z) : option nat :=
  let j := (if i <? 0 then i + Z.of_nat len else i)%Z in
  if ((0 <=? j) && (j <? Z.of_nat len))%Z then Some (Z.to_nat j) else None.

Fixpoint assoc (k : string) (items : list (string * pyval)) : option pyval :=
  match items with
  | [] => None
  | (k', v) :: rest => if String.eqb k k' then Some v else assoc k rest
  end.

(** [v[k]] for a string [k]. *)
Definition getitem_str (v : pyval) (k : string) : exn + pyval :=
  match v with
  | VDict items =>
      match assoc k items with
      | Some x => inr x
      | None => inl (KeyError (VStr k))
      end
  | _ => inl TypeError
  end.

(** [v[i]] for an integer [i]. *)
Definition getitem_int (v : pyval) (i : Z) : exn + pyval :=
  match v with
  | VList items =>
      match seq_index (length items) i with
      | Some j => match items !! j with Some x => inr x | None => inl IndexError end
      | None => inl IndexError
      end
  | VStr s =>
      match seq_index (length (chars s)) i with
      | Some j => match chars s !! j with Some ch => inr (VStr ch) | None => inl IndexError end
      | None => inl IndexError
      end
  | VDict _ => inl (KeyError (VInt i))
  | _ => inl TypeError
  end.

(** [v.strip()]: only a [str] has the method. *)
Definition call_strip (v : pyval) : exn + string :=
  match v with
  | VStr s => inr (strip s)
  | _ => inl AttributeError
  end.

(** ** The world outside the function *)

(** What the module takes from the libraries it imports: the completion
    provider behind [litellm.completion], a function of the model name and
    of the messages it is sent that may depend on and change a state of its
    own (the network, the remote service) and either raises or answers; and
    what [load_dotenv] does to the process environment. *)
Class Externals : Type := {
  provider_state : Type;
  completion : string → list Message → provider_state → provider_state * (exn + pyval);
  dotenv : bool → gmap string string → gmap string string;
}.

Section Program.
Context `{Ext : Externals}.

(** The state a run can see or change: the store of list objects, the
    process environment [os.environ], the provider's state, and a record of
    the calls made to the provider (model name and messages sent). *)
Record World : Type := mkWorld {
  heap : gmap loc (list Message);
  environ : gmap string string;
  provider : provider_state;
  calls : list (string * list Message);
}.

(** A statement: it runs in a world, and returns a value or raises. *)
Definition M (A : Type) : Type := World → World * (exn + A).

#[global] Instance M_ret : MRet M := λ A a w, (w, inr a).
#[global] Instance M_bind : MBind M := λ A B f m w,
  match m w with
  | (w', inr a) => f a w'
  | (w', inl e) => (w', inl e)
  end.

Definition raise {A : Type} (e : exn) : M A := λ w, (w, inl e).

(** An expression that touches no state. *)
Definition pure {A : Type} (r : exn + A) : M A := λ w, (w, r).

(** *** List objects *)

Definition deref (l : loc) : M (list Message) := λ w,
  match heap w !! l with
  | Some items => (w, inr items)
  | None => (w, inl (DanglingRef l))
  end.

(** A new list object, at a location not in use. *)
Definition alloc (items : list Message) : M loc := λ w,
  let l := fresh (dom (heap w)) in
  (mkWorld (<[l := items]> (heap w)) (environ w) (provider w) (calls w), inr l).

(** The truth value of a list: [len(l) != 0]. *)
Definition list_bool (l : loc) : M bool :=
  items ← deref l; mret (negb (Nat.eqb (length items) 0)).

(** [l[i]] *)
Definition list_getitem (l : loc) (i : Z) : M Message :=
  items ← deref l;
  match seq_index (length items) i with
  | Some j => match items !! j with Some m => mret m | None => raise IndexError end
  | None => raise IndexError
  end.

(** The list display [[m1, ..., mn]]. *)
Definition list_display (items : list Message) : M loc := alloc items.

(** [a + b]: a new list, the operands are left as they are. *)
Definition list_add (a b : loc) : M loc :=
  xs ← deref a; ys ← deref b; alloc (xs ++ ys).

(** [d[k]] on a message. *)
Definition dict_getitem (d : Message) (k : string) : M string :=
  match d !! k with
  | Some v => mret v
  | None => raise (KeyError (VStr k))
  end.

(** *** Library calls *)

(** [litellm.completion(model=..., messages=...)]: the provider reads the
    list it is passed; the call is recorded. *)
Definition litellm_completion (model : string) (messages : loc) : M pyval := λ w,
  match heap w !! messages with
  | None => (w, inl (DanglingRef messages))
  | Some items =>
      let '(p, r) := completion model items (provider w) in
      (mkWorld (heap w) (environ w) p (calls w ++ [(model, items)]), r)
  end.

(** [load_dotenv(override=...)] *)
Definition load_dotenv (override : bool) : M unit := λ w,
  (mkWorld (heap w) (dotenv override (environ w)) (provider w) (calls w), inr ()).

(** [os.environ.get(key, default)] *)
Definition os_environ_get (key dflt : string) : M string := λ w,
  (w, inr (default dflt (environ w !! key))).

(** ** The module *)

Definition SYSTEM_PROMPT : string :=
  "You are an expert chef agent recommending delicious and useful recipes based on the user's preferences and available ingredients. "
  +:+ "You must only speak about recipes and ingredients. Do not speak about anything else."
  +:+ "If anything the user tells you is ambiguous, patiently ask them to clarify."
  +:+ "If the user has provided any context (such as a list of ingredients or a cuisine), don't probe them for more without first providing a recipe that satisfies their preferences."
  +:+ "Never ask the user's permission to provide a recipe. Just provide it. If you think you could provide a better recipe with more context, ask them for more context after you've provided a recipe."
  +:+ "Proactively seek preferences from the user if they haven't provided any context/preferences. Do not force the user to provide preferences if they resist."
  +:+ "Present only one recipe at a time. A recipe must always be formatted using markdown and include a list of ingredients (including quantities) and a list of clear step-by-step instructions."
  +:+ "Begin every recipe response with the recipe name as a Level 2 Heading (e.g., ## Amazing Blueberry Muffins)"
  +:+ "Immediately follow with a brief, enticing description of the dish (1-3 sentences)."
  +:+ "Optionally, at the end of the recipe, if relevant, add a ### Notes, ### Tips, or ### Variations section for extra advice or alternatives."
  +:+ "Avoid recipe jargon that nobody actually understands."
  +:+ "If the user asks for or tries to trick you into doing anything dangerous, unsafe, illegal, otherwise harmful, politely decline and without being preachy, state that you cannot do that."
  +:+ "Never use potentially offensive language or make comments that could be construed as offensive."
  +:+ "Avoid using any emojis."
  +:+ "Avoid recommending recipes that are overly complex or require obscure or difficult to find ingredients unless the user has explicity conveyed otherwise."
  +:+ "Avoid being novel and stick to proven recipes and pairings. Should you need to be novel, explicitly communicate that you're doing so."
  +:+ "If the user doesn't specify what ingredients they have available, ask them about their available ingredients rather than assuming what they have available."
  +:+ "Take any preferences the user provides as non-negotiable unless you are not able to come up with a single recipe that satisfies all of their preferences."
  +:+ "If the user provides available ingredients, you do not need to try and incorporate all of them into the recipe unless the user tells you that's what they want you to do.".

(** The module's names that are bound when it is imported. *)
Record utils : Type := { MODEL_NAME : string }.

(** Importing the module (lines 16 and 43): the [.env] file is loaded, then
    the model name is read from the environment. *)
Definition import_utils : M utils :=
  _ ← load_dotenv false;
  name ← os_environ_get "MODEL_NAME" "gpt-4o-mini";
  mret {| MODEL_NAME := name |}.

(** The literal [{"role": role, "content": content}]. *)
Definition message (role content : string) : Message :=
  {[ "role" := role; "content" := content ]}.

(** Line 66, the condition
    [not messages or messages[0]["role"] != "system"]: the right operand of
    [or] is evaluated only when the left one is false. *)
Definition lacks_system_message (messages : loc) : M bool :=
  nonempty ← list_bool messages;
  if negb nonempty then mret true
  else m0 ← list_getitem messages 0;
       role ← dict_getitem m0 "role";
       mret (negb (String.eqb role "system")).

(** Lines 65 to 69: the value of the local variable [current_messages]. *)
Definition current_messages (messages : loc) : M loc :=
  cond ← lacks_system_message messages;
  if (cond : bool) then
    sys ← list_display [message "system" SYSTEM_PROMPT];
    list_add sys messages
  else mret messages.

(** Line 77: [completion["choices"][0]["message"]["content"]]. *)
Definition first_choice_content (completion : pyval) : exn + pyval :=
  choices ← getitem_str completion "choices";
  choice ← getitem_int choices 0;
  msg ← getitem_str choice "message";
  getitem_str msg "content".

(** Lines 76 to 79: the value of the local variable
    [assistant_reply_content]. *)
Definition assistant_reply_content (completion : pyval) : exn + string :=
  content ← first_choice_content completion;
  call_strip content.

Definition get_agent_response (U : utils) (messages : loc) : M loc :=
  current ← current_messages messages;
  completion ← litellm_completion (MODEL_NAME U) current;
  reply ← pure (assistant_reply_content completion);
  lit ← list_display [message "assistant" reply];
  updated_messages ← list_add current lit;
  mret updated_messages.

End Program.

(** ** Vocabulary of the statements *)

(** The role of the first message of a conversation, when there is one. *)
Definition first_role (hist : list Message) : option string :=
  m ← head hist; m !! "role".

(** A message has a role, as the docstring of [get_agent_response] asks of
    every item of the history. *)
Definition has_role (m : Message) : Prop := is_Some (m !! "role").

Section Observations.
Context `{Ext : Externals}.

(** The list a run returns, read from the store the run leaves. *)
Definition returned (run : World * (exn + loc)) : option (list Message) :=
  match run with
  | (w', inr l) => heap w' !! l
  | (_, inl _) => None
  end.

(** The provider calls a run made, when it started in [w]. *)
Definition sent (w : World) (run : World * (exn + loc)) : list (string * list Message) :=
  drop (length (calls w)) (calls run.1).

(** What a caller can tell of a run: the exception, or the content of the
    returned list. *)
Definition outcome (run : World * (exn + loc)) : exn + option (list Message) :=
  match run with
  | (w', inr l) => inr (heap w' !! l)
  | (_, inl e) => inl e
  end.

(** [w'] is [w] with more list objects: the objects of [w] are as they were,
    and so are the environment, the provider and the record of calls. *)
Definition grows (w w' : World) : Prop :=
  heap w ⊆ heap w' ∧ environ w' = environ w ∧ provider w' = provider w
  ∧ calls w' = calls w.

(** The world right after the provider was called on [cur] in [w]. *)
Definition after_call (U : utils) (w : World) (cur : list Message) : World :=
  mkWorld (heap w) (environ w)
          (completion (MODEL_NAME U) cur (provider w)).1
          (calls w ++ [(MODEL_NAME U, cur)]).

(** What the provider's answer on [cur] in [w] makes of the reply: the
    exception the caller sees, or the text of the assistant message. *)
Definition reply_to (U : utils) (w : World) (cur : list Message) : exn + string :=
  (completion (MODEL_NAME U) cur (provider w)).2 ≫= assistant_reply_content.

(** Lines 65 to 69 took [w] and the history [hist] to [w1] and the
    conversation [cur]. *)
Definition prepared (w : World) (hist : list Message) (w1 : World) (cur : list Message) : Prop :=
  grows w w1
  ∧ ((first_role hist = Some "system" ∧ cur = hist ∧ w1 = w)
     ∨ ((hist = [] ∨ ∃ r, first_role hist = Some r ∧ r ≠ "system")
        ∧ cur = message "system" SYSTEM_PROMPT :: hist)).

(** The three ways a run of [get_agent_response] on the history [hist] ends. *)
Inductive run_of (U : utils) (w : World) (hist : list Message) : World * (exn + loc) → Prop :=
  | run_key_error :
      hist ≠ [] → first_role hist = None →
      run_of U w hist (w, inl (KeyError (VStr "role")))
  | run_raises w1 cur e :
      prepared w hist w1 cur → reply_to U w cur = inl e →
      run_of U w hist (after_call U w1 cur, inl e)
  | run_returns w1 cur reply w' out :
      prepared w hist w1 cur → reply_to U w cur = inr reply →
      heap w1 !! out = None →
      heap w' !! out = Some (cur ++ [message "assistant" reply]) →
      grows (after_call U w1 cur) w' →
      run_of U w hist (w', inr out).

End Observations.

(** The messages of a conversation that have role "system". *)
Definition system_messages (hist : list Message) : list Message :=
  filter (λ m : Message, m !! "role" = Some "system") hist.

(** The responses line 77 finds a string in: a dict whose "choices" is a
    list, the first item of which is a dict whose "message" is a dict whose
    "content" is the string [c]. *)
Definition well_shaped (resp : pyval) (c : string) : Prop :=
  ∃ items citems rest mitems,
    resp = VDict items
    ∧ assoc "choices" items = Some (VList (VDict citems :: rest))
    ∧ assoc "message" citems = Some (VDict mitems)
    ∧ assoc "content" mitems = Some (VStr c).

(** ** A kitchen to run the program in *)

Module Kitchen.

(** A response with one choice, the message of which has [content]. *)
Definition response (content : pyval) : pyval :=
  VDict [("choices",
          VList [VDict [("message",
                         VDict [("role", VStr "assistant"); ("content", content)])]])].

(** A provider that answers every call with the same recipe and counts the
    calls it served; there is no [.env] file. *)
Definition cook : Externals := {|
  provider_state := nat;
  completion := λ _ _ served, (S served, inr (response (VStr "  ## Chicken fried rice  ")));
  dotenv := λ _ env, env;
|}.

(** A provider that turns every call down. *)
Definition closed : Externals := {|
  provider_state := nat;
  completion := λ _ _ served, (S served, inl (ProviderError "AuthenticationError"));
  dotenv := λ _ env, env;
|}.

Definition gpt : utils := {| MODEL_NAME := "gpt-4o-mini" |}.

Definition asked : list Message := [message "user" "I have chicken and rice"].

Definition custom : list Message := [message "system" "custom"; message "user" "hi"].

Definition lists : gmap loc (list Message) :=
  {[ 1%positive := []; 2%positive := asked; 3%positive := custom ]}.

(** A world with three list objects, an empty environment and a provider
    that has served [served] calls. *)
Definition day (served : nat) : @World cook := @mkWorld cook lists ∅ served [].

Definition night : @World closed := @mkWorld closed lists ∅ 0%nat [].

(** Another world of the cook: one list object, at another place, a model
    name in the environment, five calls served and one on record. *)
Definition later : @World cook :=
  @mkWorld cook {[ 9%positive := asked ]} {[ "MODEL_NAME" := "gpt-4o" ]} 5%nat
           [("gpt-4o-mini", custom)].

Definition sys : Message := message "system" SYSTEM_PROMPT.

Definition recipe : Message := message "assistant" "## Chicken fried rice".

End Kitchen.

(** ** More of the kitchen: odd histories and odd providers *)

Module Pantry.

(** A provider that answers with no choice at all. *)
Definition mute : Externals := {|
  provider_state := nat;
  completion := λ _ _ served, (S served, inr (VDict [("choices", VList [])]));
  dotenv := λ _ env, env;
|}.

(** U+2003, em space, and U+3000, ideographic space. *)
Definition em_space : string := String "226" (String "128" (String "131" "")).

Definition ideographic_space : string := String "227" (String "128" (String "128" "")).


(** A provider that answers with blanks of three kinds. *)
Definition blanks : string := " " +:+ ideographic_space +:+ em_space.

Definition blank : Externals := {|
  provider_state := nat;
  completion := λ _ _ served, (S served, inr (Kitchen.response (VStr blanks)));
  dotenv := λ _ env, env;
|}.


(** A history whose first item has no "role". *)
Definition nameless : list Message := [{[ "content" := "hi" ]}].

(** A history whose system message is not the first one. *)
Definition buried : list Message := [message "user" "hi"; message "system" "custom"].

Definition dusk : @World Kitchen.cook :=
  @mkWorld Kitchen.cook {[ 1%positive := nameless; 2%positive := buried ]} ∅ 0%nat [].

Definition silence : @World mute := @mkWorld mute Kitchen.lists ∅ 0%nat [].

Definition fog : @World blank := @mkWorld blank Kitchen.lists ∅ 0%nat [].


End Pantry.

(** * Proofs *)

(** ** [str.strip] *)

Section Strip.
Context {A : Type} (sp : A → bool).



Lemma lstrip_all (xs : list A) : forallb sp xs = true → lstrip sp xs = [].
Proof.
  induction xs as [|x xs IH]; simpl; [done|].
  destruct (sp x); simpl; [exact IH|done].
Qed.








End Strip.

Lemma join_chars s : join (chars s) = s.
Proof.
  induction s as [|b s IH]; simpl; [done|].
  destruct (chars s) as [|g gs]; simpl in *; [by rewrite <- IH|].
  destruct (starts_with_continuation g); simpl; by rewrite <- IH.
Qed.


Lemma strip_all_space s : all_space s = true → strip s = "".
Proof. intros H. unfold strip. by rewrite (lstrip_all space _ H). Qed.

(** ** The encoding *)

Lemma utf8_bytes_cases n :
  is_codepoint n →
  ∃ q0 r0 q1 r1 q2 r2 : N,
    (n = 64 * q0 + r0 ∧ r0 < 64 ∧ q0 = 64 * q1 + r1 ∧ r1 < 64
     ∧ q1 = 64 * q2 + r2 ∧ r2 < 64)%N
    ∧ ((n < 128)%N ∧ utf8_bytes n = [n]
       ∨ (128 ≤ n < 2048)%N ∧ utf8_bytes n = [192 + q0; 128 + r0]%N
       ∨ (2048 ≤ n < 65536)%N ∧ utf8_bytes n = [224 + q1; 128 + r1; 128 + r0]%N
       ∨ (65536 ≤ n)%N
         ∧ utf8_bytes n = [240 + q2; 128 + r2; 128 + r1; 128 + r0]%N).
Proof.
  intros Hn. unfold utf8_bytes.
  exists (n / 64)%N, (n mod 64)%N, (n / 64 / 64)%N, ((n / 64) mod 64)%N,
         (n / 64 / 64 / 64)%N, ((n / 64 / 64) mod 64)%N.
  split.
  - pose proof (N.div_mod n 64 ltac:(lia)).
    pose proof (N.mod_lt n 64 ltac:(lia)).
    pose proof (N.div_mod (n / 64) 64 ltac:(lia)).
    pose proof (N.mod_lt (n / 64) 64 ltac:(lia)).
    pose proof (N.div_mod (n / 64 / 64) 64 ltac:(lia)).
    pose proof (N.mod_lt (n / 64 / 64) 64 ltac:(lia)).
    done.
  - destruct (N.ltb_spec n 0x80); [by left|].
    destruct (N.ltb_spec n 0x800); [right; left; split; [lia|done]|].
    destruct (N.ltb_spec n 0x10000); [right; right; left; split; [lia|done]|].
    right; right; right. split; [lia|done].
Qed.

Lemma bytes_of_list bs :
  Forall (λ b, (b < 256)%N) bs →
  bytes (string_of_list_ascii (map ascii_of_N bs)) = bs.
Proof.
  intros Hbs. unfold bytes. rewrite list_ascii_of_string_of_list_ascii.
  induction Hbs as [|b bs Hb _ IH]; simpl; [done|].
  by rewrite N_ascii_embedding, IH.
Qed.

Lemma utf8_bytes_small n :
  is_codepoint n → Forall (λ b, (b < 256)%N) (utf8_bytes n).
Proof.
  intros Hn. unfold is_codepoint in Hn.
  destruct (utf8_bytes_cases n Hn)
    as (q0 & r0 & q1 & r1 & q2 & r2 & Hd & [[? ->]|[[? ->]|[[? ->]|[? ->]]]]);
    repeat constructor; lia.
Qed.

(** Decoding the bytes of a code point gives the code point. *)
Lemma codepoint_utf8_char n : is_codepoint n → codepoint (utf8_char n) = n.
Proof.
  intros Hn. unfold codepoint, utf8_char.
  rewrite (bytes_of_list _ (utf8_bytes_small n Hn)). unfold is_codepoint in Hn.
  destruct (utf8_bytes_cases n Hn)
    as (q0 & r0 & q1 & r1 & q2 & r2 & Hd & [[? ->]|[[? ->]|[[? ->]|[? ->]]]]);
    cbv zeta; split_comparisons; simpl; lia.
Qed.

Lemma space_utf8_char n : is_codepoint n → space (utf8_char n) = isspace n.
Proof. intros Hn. unfold space. by rewrite codepoint_utf8_char. Qed.

Lemma is_continuation_of_N k :
  (k < 256)%N → is_continuation (ascii_of_N k) = ((128 <=? k) && (k <? 192))%N.
Proof. intros Hk. unfold is_continuation. by rewrite N_ascii_embedding. Qed.

(** The bytes of a code point: one that is no continuation byte, then
    continuation bytes only. *)
Lemma utf8_char_shape n :
  is_codepoint n →
  ∃ b g, utf8_char n = String b g ∧ is_continuation b = false
         ∧ all_continuation g = true.
Proof.
  intros Hn. unfold utf8_char. unfold is_codepoint in Hn.
  destruct (utf8_bytes_cases n Hn)
    as (q0 & r0 & q1 & r1 & q2 & r2 & Hd & [[? ->]|[[? ->]|[[? ->]|[? ->]]]]);
    simpl; eexists _, _; (split; [reflexivity|]); simpl;
    rewrite !is_continuation_of_N by lia; split_comparisons; done.
Qed.

Lemma chars_nil s : chars s = [] → s = "".
Proof.
  destruct s as [|b s]; simpl; [done|].
  destruct (chars s) as [|g gs]; [done|]. by destruct (starts_with_continuation g).
Qed.

Lemma chars_first s g gs :
  chars s = g :: gs → starts_with_continuation g = starts_with_continuation s.
Proof.
  destruct s as [|b s]; simpl; [done|].
  destruct (chars s) as [|h hs]; [by intros [= <- _]|].
  destruct (starts_with_continuation h); by intros [= <- _].
Qed.

Lemma chars_String b s :
  chars (String b s) =
    match chars s with
    | [] => [String b ""]
    | g :: gs =>
        if starts_with_continuation g then String b g :: gs
        else String b "" :: g :: gs
    end.
Proof. reflexivity. Qed.

(** A code point in front of a [str] is the first of its code points. *)
Lemma chars_cons b g s :
  all_continuation g = true → starts_with_continuation s = false →
  chars (String b g +:+ s) = String b g :: chars s.
Proof.
  intros Hg Hs. revert b. induction g as [|b' g IH]; intros b.
  - change (chars (String b s) = String b "" :: chars s). rewrite chars_String.
    destruct (chars s) as [|h hs] eqn:Hch; [done|].
    by rewrite (chars_first s h hs Hch), Hs.
  - simpl in Hg. apply andb_prop in Hg as [Hb' Hg].
    change (chars (String b (String b' g +:+ s)) = String b (String b' g) :: chars s).
    rewrite chars_String, (IH Hg b'). simpl. by rewrite Hb'.
Qed.

Lemma utf8_first cps :
  Forall is_codepoint cps → starts_with_continuation (utf8 cps) = false.
Proof.
  intros Hcps. destruct Hcps as [|n rest Hn _]; [done|]. unfold utf8. simpl.
  destruct (utf8_char_shape n Hn) as (b & g & -> & Hb & _). exact Hb.
Qed.

(** The code points of an encoded [str] are the encoded code points. *)
Lemma chars_utf8 cps :
  Forall is_codepoint cps → chars (utf8 cps) = map utf8_char cps.
Proof.
  induction 1 as [|n cps Hn Hcps IH]; [done|].
  pose proof (utf8_first cps Hcps) as Hfirst. unfold utf8 in *. simpl.
  destruct (utf8_char_shape n Hn) as (b & g & -> & _ & Hg).
  by rewrite chars_cons, IH.
Qed.


Lemma all_space_utf8 cps :
  Forall is_codepoint cps → all_space (utf8 cps) = forallb isspace cps.
Proof.
  intros Hcps. unfold all_space. rewrite (chars_utf8 cps Hcps).
  induction Hcps as [|n cps Hn _ IH]; simpl; [done|].
  by rewrite IH, space_utf8_char.
Qed.

(** Equal [str] have equal bytes and conversely; the bytes of a
    concatenation are the bytes of its parts. *)
Lemma utf8_inj xs ys :
  Forall is_codepoint xs → Forall is_codepoint ys → utf8 xs = utf8 ys → xs = ys.
Proof.
  intros Hxs Hys Heq.
  assert (map utf8_char xs = map utf8_char ys) as Hmap.
  { by rewrite <- (chars_utf8 xs Hxs), <- (chars_utf8 ys Hys), Heq. }
  clear Heq. revert ys Hys Hmap.
  induction Hxs as [|x xs Hx _ IH]; intros [|y ys] Hys; simpl; try done.
  intros [= Hxy Hrest]. apply Forall_cons in Hys as [Hy Hys].
  f_equal; [|by apply IH].
  by rewrite <- (codepoint_utf8_char x Hx), <- (codepoint_utf8_char y Hy), Hxy.
Qed.

Lemma append_assoc (s t u : string) : (s +:+ t) +:+ u = s +:+ (t +:+ u).
Proof.
  induction s as [|b s IH]; [done|].
  change (String b ((s +:+ t) +:+ u) = String b (s +:+ (t +:+ u))). by f_equal.
Qed.

Lemma utf8_app xs ys : utf8 (xs ++ ys) = utf8 xs +:+ utf8 ys.
Proof.
  unfold utf8. induction xs as [|x xs IH]; simpl; [done|].
  by rewrite IH, append_assoc.
Qed.

(** ** The store and the statements *)

Section Runs.
Context `{Ext : Externals}.
Implicit Types (w : World) (l messages : loc) (hist cur xs ys : list Message).

Lemma bind_ok {A B} (m : M A) (f : A → M B) w w' a :
  m w = (w', inr a) → (m ≫= f) w = f a w'.
Proof. intros H. unfold mbind, M_bind. by rewrite H. Qed.

Lemma bind_raise {A B} (m : M A) (f : A → M B) w w' e :
  m w = (w', inl e) → (m ≫= f) w = (w', inl e).
Proof. intros H. unfold mbind, M_bind. by rewrite H. Qed.

Lemma grows_refl w : grows w w.
Proof. by repeat split. Qed.

Lemma grows_trans w1 w2 w3 : grows w1 w2 → grows w2 w3 → grows w1 w3.
Proof.
  intros (H1 & E1 & P1 & C1) (H2 & E2 & P2 & C2).
  repeat split; [by etrans|congruence..].
Qed.

Lemma grows_lookup w w' l hist :
  grows w w' → heap w !! l = Some hist → heap w' !! l = Some hist.
Proof. intros [H _] Hl. by eapply lookup_weaken. Qed.

Lemma deref_ok w l hist : heap w !! l = Some hist → deref l w = (w, inr hist).
Proof. intros H. unfold deref. by rewrite H. Qed.

Lemma alloc_run items w :
  ∃ l w', alloc items w = (w', inr l) ∧ heap w !! l = None
          ∧ heap w' !! l = Some items ∧ grows w w'.
Proof.
  eexists _, _. split; [reflexivity|].
  assert (heap w !! fresh (dom (heap w)) = None) as Hfresh.
  { apply not_elem_of_dom, is_fresh. }
  split; [done|]. simpl. split; [apply lookup_insert_eq|].
  repeat split; simpl. by apply insert_subseteq.
Qed.

Lemma list_add_run w a b xs ys :
  heap w !! a = Some xs → heap w !! b = Some ys →
  ∃ l w', list_add a b w = (w', inr l) ∧ heap w !! l = None
          ∧ heap w' !! l = Some (xs ++ ys) ∧ grows w w'.
Proof.
  intros Ha Hb. unfold list_add.
  rewrite (bind_ok _ _ _ _ _ (deref_ok _ _ _ Ha)).
  rewrite (bind_ok _ _ _ _ _ (deref_ok _ _ _ Hb)).
  apply alloc_run.
Qed.

Lemma list_bool_run w l hist :
  heap w !! l = Some hist →
  list_bool l w = (w, inr (negb (Nat.eqb (length hist) 0))).
Proof.
  intros H. unfold list_bool. by rewrite (bind_ok _ _ _ _ _ (deref_ok _ _ _ H)).
Qed.

Lemma list_getitem_first w l m rest :
  heap w !! l = Some (m :: rest) → list_getitem l 0 w = (w, inr m).
Proof.
  intros H. unfold list_getitem.
  by rewrite (bind_ok _ _ _ _ _ (deref_ok _ _ _ H)).
Qed.

Lemma list_getitem_empty w l :
  heap w !! l = Some [] → list_getitem l 0 w = (w, inl IndexError).
Proof.
  intros H. unfold list_getitem.
  by rewrite (bind_ok _ _ _ _ _ (deref_ok _ _ _ H)).
Qed.

Lemma litellm_completion_run model w l cur :
  heap w !! l = Some cur →
  litellm_completion model l w =
    (mkWorld (heap w) (environ w) (completion model cur (provider w)).1
             (calls w ++ [(model, cur)]),
     (completion model cur (provider w)).2).
Proof.
  intros H. unfold litellm_completion. rewrite H.
  by destruct (completion model cur (provider w)).
Qed.

(** *** Lines 65 to 69 *)

(** The branch that builds a new list. *)
Lemma prepend_run w messages hist :
  heap w !! messages = Some hist →
  ∃ w1 l,
    (sys ← list_display [message "system" SYSTEM_PROMPT]; list_add sys messages) w
      = (w1, inr l)
    ∧ heap w !! l = None
    ∧ heap w1 !! l = Some (message "system" SYSTEM_PROMPT :: hist)
    ∧ grows w w1.
Proof.
  intros H. unfold list_display.
  destruct (alloc_run [message "system" SYSTEM_PROMPT] w) as (s & ws & Hs & Hnew & Hat & Hg).
  rewrite (bind_ok _ _ _ _ _ Hs).
  destruct (list_add_run ws s messages _ _ Hat (grows_lookup _ _ _ _ Hg H))
    as (l & w1 & Hadd & Hnew' & Hat' & Hg').
  exists w1, l. split; [done|]. split; [|split; [done|by eapply grows_trans]].
  destruct (heap w !! l) eqn:Hl; [|done].
  apply (grows_lookup _ _ _ _ Hg) in Hl. congruence.
Qed.

(** The condition of line 66, case by case. *)
Lemma lacks_system_message_run w messages hist :
  heap w !! messages = Some hist →
  lacks_system_message messages w =
    match hist with
    | [] => (w, inr true)
    | m :: _ =>
        match m !! "role" with
        | Some r => (w, inr (negb (String.eqb r "system")))
        | None => (w, inl (KeyError (VStr "role")))
        end
    end.
Proof.
  intros H. unfold lacks_system_message.
  rewrite (bind_ok _ _ _ _ _ (list_bool_run _ _ _ H)).
  destruct hist as [|m rest]; simpl; [done|].
  rewrite (bind_ok _ _ _ _ _ (list_getitem_first _ _ _ _ H)).
  unfold dict_getitem. by destruct (m !! "role").
Qed.

Lemma current_messages_cases w messages hist :
  heap w !! messages = Some hist →
  (first_role hist = Some "system"
   ∧ current_messages messages w = (w, inr messages))
  ∨ ((hist = [] ∨ ∃ r, first_role hist = Some r ∧ r ≠ "system")
     ∧ ∃ w1 l, current_messages messages w = (w1, inr l)
               ∧ heap w !! l = None
               ∧ heap w1 !! l = Some (message "system" SYSTEM_PROMPT :: hist)
               ∧ grows w w1)
  ∨ (hist ≠ [] ∧ first_role hist = None
     ∧ current_messages messages w = (w, inl (KeyError (VStr "role")))).
Proof.
  intros H. unfold current_messages.
  pose proof (lacks_system_message_run w messages hist H) as Hc.
  pose proof (prepend_run w messages hist H) as Hp.
  destruct hist as [|m rest].
  - right; left. split; [by left|]. by rewrite (bind_ok _ _ _ _ _ Hc).
  - unfold first_role. simpl. destruct (m !! "role") as [r|] eqn:Hr.
    + rewrite (bind_ok _ _ _ _ _ Hc).
      destruct (String.eqb_spec r "system") as [->|Hne]; simpl.
      * by left.
      * right; left. split; [|done]. right. by exists r.
    + right; right. by rewrite (bind_raise _ _ _ _ _ Hc).
Qed.

(** Lines 65 to 69 return only when [messages] is a list object, and then
    they have at most added list objects to the store. *)
Lemma current_messages_grows w messages w1 l :
  current_messages messages w = (w1, inr l) →
  grows w w1 ∧ ∃ hist, heap w !! messages = Some hist.
Proof.
  intros Hcur. destruct (heap w !! messages) as [hist|] eqn:H.
  - split; [|by exists hist].
    destruct (current_messages_cases w messages hist H)
      as [[_ Hcur']|[[_ (w1' & l' & Hcur' & _ & _ & Hg)]|(_ & _ & Hcur')]];
      rewrite Hcur' in Hcur; simplify_eq; [apply grows_refl|done].
  - unfold current_messages, lacks_system_message, list_bool, deref in Hcur.
    unfold mbind, M_bind in Hcur. rewrite H in Hcur. done.
Qed.

(** *** The whole function *)

Lemma get_agent_response_early U w messages w1 e :
  current_messages messages w = (w1, inl e) →
  get_agent_response U messages w = (w1, inl e).
Proof. intros H. unfold get_agent_response. by rewrite (bind_raise _ _ _ _ _ H). Qed.

Lemma get_agent_response_after U w messages w1 l cur :
  current_messages messages w = (w1, inr l) → heap w1 !! l = Some cur →
  match reply_to U w1 cur with
  | inl e => get_agent_response U messages w = (after_call U w1 cur, inl e)
  | inr reply =>
      ∃ w' out, get_agent_response U messages w = (w', inr out)
                ∧ heap w1 !! out = None
                ∧ heap w' !! out = Some (cur ++ [message "assistant" reply])
                ∧ grows (after_call U w1 cur) w'
  end.
Proof.
  intros Hcur Hl. unfold get_agent_response.
  rewrite (bind_ok _ _ _ _ _ Hcur).
  pose proof (litellm_completion_run (MODEL_NAME U) w1 l cur Hl) as Hcall.
  fold (after_call U w1 cur) in Hcall. unfold reply_to.
  destruct (completion (MODEL_NAME U) cur (provider w1)).2 as [e|resp] eqn:Hr; simpl.
  { by rewrite (bind_raise _ _ _ _ _ Hcall). }
  rewrite (bind_ok _ _ _ _ _ Hcall).
  destruct (assistant_reply_content resp) as [e|reply] eqn:Hreply.
  { reflexivity. }
  rewrite (bind_ok (pure (inr reply)) _ _ _ reply eq_refl). unfold list_display.
  destruct (alloc_run [message "assistant" reply] (after_call U w1 cur))
    as (a & wa & Ha & Hnew & Hat & Hg).
  rewrite (bind_ok _ _ _ _ _ Ha).
  assert (heap wa !! l = Some cur) as Hl' by by apply (grows_lookup _ _ _ _ Hg).
  destruct (list_add_run wa l a _ _ Hl' Hat) as (out & w' & Hadd & Hnew' & Hat' & Hg').
  rewrite (bind_ok _ _ _ _ _ Hadd).
  exists w', out. split; [done|]. split; [|split; [done|by eapply grows_trans]].
  destruct (heap w1 !! out) eqn:Hout; [|done].
  apply (grows_lookup (after_call U w1 cur) wa) in Hout; [congruence|done].
Qed.

(** Every run on a history ends in one of the three ways of [run_of]. *)
Lemma get_agent_response_run U w messages hist :
  heap w !! messages = Some hist →
  run_of U w hist (get_agent_response U messages w).
Proof.
  intros H.
  destruct (current_messages_cases w messages hist H)
    as [[Hsys Hcur]|[[Hno (w1 & l & Hcur & Hnew & Hat & Hg)]|(Hne & Hrole & Hcur)]].
  - pose proof (get_agent_response_after U w messages w messages hist Hcur H) as Hrun.
    assert (prepared w hist w hist) as Hp.
    { split; [apply grows_refl|]. by left. }
    destruct (reply_to U w hist) as [e|reply] eqn:Hreply.
    + rewrite Hrun. by apply run_raises.
    + destruct Hrun as (w' & out & -> & ? & ? & ?). by eapply run_returns.
  - pose proof (get_agent_response_after U w messages w1 l _ Hcur Hat) as Hrun.
    assert (prepared w hist w1 (message "system" SYSTEM_PROMPT :: hist)) as Hp.
    { split; [done|]. by right. }
    assert (reply_to U w1 (message "system" SYSTEM_PROMPT :: hist)
            = reply_to U w (message "system" SYSTEM_PROMPT :: hist)) as Heq.
    { unfold reply_to. destruct Hg as (_ & _ & -> & _). done. }
    rewrite Heq in Hrun.
    destruct (reply_to U w _) as [e|reply] eqn:Hreply.
    + rewrite Hrun. by apply run_raises.
    + destruct Hrun as (w' & out & -> & ? & ? & ?). by eapply run_returns.
  - rewrite (get_agent_response_early U w messages w _ Hcur). by apply run_key_error.
Qed.

(** *** What a run leaves behind *)

Lemma sent_nothing w (r : exn + loc) : sent w (w, r) = [].
Proof. unfold sent. simpl. by rewrite drop_all. Qed.

Lemma prepared_first_role w hist w1 cur :
  prepared w hist w1 cur → first_role cur = Some "system".
Proof. by intros [_ [(? & -> & _)|[_ ->]]]. Qed.

Lemma prepared_provider U w hist w1 cur :
  prepared w hist w1 cur →
  completion (MODEL_NAME U) cur (provider w1) = completion (MODEL_NAME U) cur (provider w).
Proof. intros [(_ & _ & -> & _) _]. done. Qed.

(** A run that got past lines 65 to 69 made one call, and changed nothing
    but the store, which it only extended, and the provider. *)
Lemma after_call_effects U w hist w1 cur w' :
  prepared w hist w1 cur →
  w' = after_call U w1 cur ∨ grows (after_call U w1 cur) w' →
  calls w' = calls w ++ [(MODEL_NAME U, cur)]
  ∧ provider w' = (completion (MODEL_NAME U) cur (provider w)).1
  ∧ environ w' = environ w
  ∧ heap w ⊆ heap w'.
Proof.
  intros Hp Hw'. assert (grows (after_call U w1 cur) w') as Hg.
  { destruct Hw' as [->|?]; [apply grows_refl|done]. }
  rewrite <- (prepared_provider U _ _ _ _ Hp).
  destruct Hp as [(Hh & He & Hpr & Hc) _]. destruct Hg as (Hh' & He' & Hpr' & Hc').
  simpl in *. rewrite Hc', He', Hpr', Hc, He. repeat split. by etrans.
Qed.

Lemma sent_one w w' (call : string * list Message) (r : exn + loc) :
  calls w' = calls w ++ [call] → sent w (w', r) = [call].
Proof. intros H. unfold sent. simpl. rewrite H. by rewrite drop_app_length. Qed.

(** The digest of [run_of] the claims are proved from. *)
Lemma run_of_inv U w hist run :
  run_of U w hist run →
  (hist ≠ [] ∧ first_role hist = None
   ∧ run = (w, inl (KeyError (VStr "role"))) ∧ sent w run = [])
  ∨ ∃ w1 cur,
      prepared w hist w1 cur
      ∧ sent w run = [(MODEL_NAME U, cur)]
      ∧ calls run.1 = calls w ++ [(MODEL_NAME U, cur)]
      ∧ provider run.1 = (completion (MODEL_NAME U) cur (provider w)).1
      ∧ environ run.1 = environ w
      ∧ heap w ⊆ heap run.1
      ∧ match reply_to U w cur with
        | inl e => run = (after_call U w1 cur, inl e)
        | inr reply =>
            ∃ out, run.2 = inr out ∧ heap w1 !! out = None
                   ∧ heap run.1 !! out = Some (cur ++ [message "assistant" reply])
        end.
Proof.
  intros [Hne Hrole|w1 cur e Hp Hreply|w1 cur reply w' out Hp Hreply Hnew Hat Hg].
  - left. by rewrite sent_nothing.
  - right. exists w1, cur.
    destruct (after_call_effects U w hist w1 cur _ Hp (or_introl eq_refl))
      as (Hc & Hpr & He & Hh).
    rewrite Hreply. split; [done|]. split; [by apply sent_one|done].
  - right. exists w1, cur.
    destruct (after_call_effects U w hist w1 cur w' Hp (or_intror Hg))
      as (Hc & Hpr & He & Hh).
    rewrite Hreply. split; [done|]. split; [by apply sent_one|].
    repeat split; [done..|]. by exists out.
Qed.

Lemma message_role role content : message role content !! "role" = Some role.
Proof. unfold message. by simplify_map_eq. Qed.

Lemma message_content role content : message role content !! "content" = Some content.
Proof. unfold message. by simplify_map_eq. Qed.

End Runs.

(** ** The claims about [get_agent_response] *)

Section Claims.
Context `{Ext : Externals}.
Implicit Types (w : World) (l messages : loc) (hist cur out : list Message).

(** A run whose one call the provider answered with a response that has a
    first choice with a string content returns the conversation it sent
    followed by the trimmed content as an assistant message. *)
Lemma run_of_success U w hist run model cur p resp c :
  run_of U w hist run →
  sent w run = [(model, cur)] →
  completion model cur (provider w) = (p, inr resp) →
  first_choice_content resp = inr (VStr c) →
  ∃ w1 l, prepared w hist w1 cur ∧ run.2 = inr l ∧ heap w1 !! l = None
    ∧ heap run.1 !! l = Some (cur ++ [message "assistant" (strip c)]).
Proof.
  intros Hrun Hsent Hcall Hcontent.
  destruct (run_of_inv U w hist run Hrun)
    as [(_ & _ & _ & Hnone)|(w1 & cur' & Hp & Hsent' & _ & _ & _ & _ & Hend)].
  { rewrite Hnone in Hsent. done. }
  rewrite Hsent' in Hsent. injection Hsent as <- <-.
  unfold reply_to in Hend. rewrite Hcall in Hend. simpl in Hend.
  unfold assistant_reply_content in Hend. rewrite Hcontent in Hend. simpl in Hend.
  destruct Hend as (l & ? & ? & ?). by exists w1, l.
Qed.

Lemma has_role_first hist :
  Forall has_role hist → hist = [] ∨ is_Some (first_role hist).
Proof. intros [|m rest Hm _]; [by left|by right]. Qed.

Lemma returned_at (run : World * (exn + loc)) l :
  run.2 = inr l → returned run = heap run.1 !! l.
Proof. destruct run as [w' [e|l']]; simpl; [done|]. by intros [= ->]. Qed.

Lemma returned_raise (run : World * (exn + loc)) e :
  run.2 = inl e → returned run = None.
Proof. destruct run as [w' [e'|l']]; simpl; done. Qed.

(** What a run returns, if it returns at all: the conversation it sent and
    one more message. *)
Lemma run_of_returned U w hist run out :
  run_of U w hist run → returned run = Some out →
  ∃ w1 cur reply, prepared w hist w1 cur
    ∧ sent w run = [(MODEL_NAME U, cur)]
    ∧ reply_to U w cur = inr reply
    ∧ out = cur ++ [message "assistant" reply].
Proof.
  intros Hrun Hout.
  destruct (run_of_inv U w hist run Hrun)
    as [(_ & _ & -> & _)|(w1 & cur & Hp & Hsent & _ & _ & _ & _ & Hend)]; [done|].
  exists w1, cur. destruct (reply_to U w cur) as [e|reply].
  { subst run. done. }
  destruct Hend as (l & Hl & _ & Hat). rewrite (returned_at _ _ Hl) in Hout.
  exists reply. split_and!; [done..|congruence].
Qed.

(** A first message without "role" ends the run at line 66: [KeyError], no
    call to the provider, the world as it was. *)
Lemma get_agent_response_key_error U w messages m rest :
  heap w !! messages = Some (m :: rest) → m !! "role" = None →
  get_agent_response U messages w = (w, inl (KeyError (VStr "role"))).
Proof.
  intros H Hrole.
  destruct (run_of_inv U w _ _ (get_agent_response_run U w messages _ H))
    as [(_ & _ & Hrun & _)|(w1 & cur & [_ Hp] & _)]; [done|].
  unfold first_role in Hp. simpl in Hp. rewrite Hrole in Hp.
  destruct Hp as [(? & _)|[[?|(r & ? & _)] _]]; done.
Qed.

(** C1. When the history is empty or its first message has a role other
    than "system", the conversation handed to the provider, and returned
    with the reply after it, is the history with one message in front, of
    role "system" and content [SYSTEM_PROMPT]; when the first message has
    role "system", it is the history itself, with nothing put in front. *)
Theorem get_agent_response_system_prompt U w messages hist :
  heap w !! messages = Some hist →
  let run := get_agent_response U messages w in
  let sys := message "system" SYSTEM_PROMPT in
  sys !! "role" = Some "system" ∧ sys !! "content" = Some SYSTEM_PROMPT
  ∧ ((hist = [] ∨ ∃ r, first_role hist = Some r ∧ r ≠ "system") →
       sent w run = [(MODEL_NAME U, sys :: hist)]
       ∧ ∀ out, returned run = Some out → ∃ reply, out = sys :: hist ++ [reply])
  ∧ (first_role hist = Some "system" →
       sent w run = [(MODEL_NAME U, hist)]
       ∧ ∀ out, returned run = Some out → ∃ reply, out = hist ++ [reply]).
Proof.
  intros H run sys.
  pose proof (get_agent_response_run U w messages hist H) as Hrun. fold run in Hrun.
  split; [apply message_role|]. split; [apply message_content|].
  assert (∀ cur, (∀ w1 cur', prepared w hist w1 cur' → cur' = cur) →
            first_role hist ≠ None ∨ hist = [] →
            sent w run = [(MODEL_NAME U, cur)]
            ∧ ∀ out, returned run = Some out → ∃ reply, out = cur ++ [reply]) as Hboth.
  { intros cur Hcur Hrole.
    split.
    - destruct (run_of_inv U w hist run Hrun)
        as [(Hne & Hnone & _)|(w1 & cur' & Hp & Hsent & _)]; [by destruct Hrole|].
      by rewrite <- (Hcur _ _ Hp).
    - intros out Hout.
      destruct (run_of_returned U w hist run out Hrun Hout)
        as (w1 & cur' & reply & Hp & _ & _ & ->).
      rewrite (Hcur _ _ Hp). by eexists. }
  split.
  - intros Hlacks. apply Hboth.
    + intros w1 cur' [_ [(Hsys & _)|[_ ->]]]; [|done].
      destruct Hlacks as [->|(r & Hr & Hne)]; [done|congruence].
    + destruct Hlacks as [->|(r & Hr & Hne)]; [by right|left; congruence].
  - intros Hsys. apply Hboth.
    + intros w1 cur' [_ [(_ & -> & _)|[Hlacks _]]]; [done|].
      destruct Hlacks as [->|(r & Hr & Hne)]; [done|congruence].
    + left. congruence.
Qed.


(** C3. When the provider answers the call with a well-formed response, the
    returned list has one message more than a history that starts with a
    "system" message, and two more than any other history. *)
Theorem get_agent_response_length U w messages hist model cur p resp c :
  heap w !! messages = Some hist →
  let run := get_agent_response U messages w in
  sent w run = [(model, cur)] →
  completion model cur (provider w) = (p, inr resp) →
  first_choice_content resp = inr (VStr c) →
  ∃ out, returned run = Some out
    ∧ length out =
        if decide (first_role hist = Some "system") then length hist + 1
        else length hist + 2.
Proof.
  intros H run Hsent Hcall Hcontent.
  pose proof (get_agent_response_run U w messages hist H) as Hrun. fold run in Hrun.
  destruct (run_of_success U w hist run model cur p resp c Hrun Hsent Hcall Hcontent)
    as (w1 & l & [_ Hp] & Hl & _ & Hat).
  eexists. rewrite (returned_at _ _ Hl). split; [exact Hat|].
  rewrite length_app. simpl.
  destruct Hp as [(Hsys & -> & _)|[Hlacks ->]]; case_decide; simpl; try lia.
  - done.
  - destruct Hlacks as [->|(r & Hr & Hne)]; [done|congruence].
Qed.

(** C4. Whatever the history, a conversation handed to the provider and a
    conversation returned are not empty and start with a message of role
    "system"; and a conversation is handed over on every history of messages
    that have a role. *)
Theorem get_agent_response_starts_with_system U w messages hist :
  heap w !! messages = Some hist →
  let run := get_agent_response U messages w in
  (∀ model cur, (model, cur) ∈ sent w run →
     cur ≠ [] ∧ first_role cur = Some "system")
  ∧ (∀ out, returned run = Some out →
     out ≠ [] ∧ first_role out = Some "system")
  ∧ (Forall has_role hist → ∃ call, sent w run = [call]).
Proof.
  intros H run.
  pose proof (get_agent_response_run U w messages hist H) as Hrun. fold run in Hrun.
  assert (∀ cur, first_role cur = Some "system" → cur ≠ []) as Hne.
  { by intros [|m rest]. }
  split; [|split].
  - intros model cur Hin.
    destruct (run_of_inv U w hist run Hrun)
      as [(_ & _ & _ & Hsent)|(w1 & cur' & Hp & Hsent & _)];
      rewrite Hsent in Hin.
    + by apply not_elem_of_nil in Hin.
    + apply list_elem_of_singleton in Hin as [= -> ->].
      apply prepared_first_role in Hp. auto.
  - intros out Hout.
    destruct (run_of_returned U w hist run out Hrun Hout)
      as (w1 & cur & reply & Hp & _ & _ & ->).
    apply prepared_first_role in Hp.
    assert (first_role (cur ++ [message "assistant" reply]) = Some "system") by
      by destruct cur.
    auto.
  - intros Hwf%has_role_first.
    destruct (run_of_inv U w hist run Hrun)
      as [(Hnil & Hnone & _)|(w1 & cur' & Hp & Hsent & _)]; [|by eexists].
    rewrite Hnone in Hwf. destruct Hwf as [?|[? ?]]; done.
Qed.

(** C5. Let lines 65 to 69 leave the world [w1] and the conversation [cur].
    If the provider raises on [cur], or answers with a response that has no
    first choice with a string content, the run ends with an exception: the
    provider's own, the one the subscripts of line 77 raise, or the
    [AttributeError] of [strip]. The provider was called once, and the store
    is as it was when the call was made: nothing was appended, and no list
    is returned. *)
Theorem get_agent_response_propagates U w messages w1 l cur p r :
  current_messages messages w = (w1, inr l) → heap w1 !! l = Some cur →
  completion (MODEL_NAME U) cur (provider w1) = (p, r) →
  (∃ e, r = inl e)
  ∨ (∃ resp, r = inr resp ∧ ∀ c, first_choice_content resp ≠ inr (VStr c)) →
  ∃ w' e,
    get_agent_response U messages w = (w', inl e)
    ∧ (∀ e', r = inl e' → e = e')
    ∧ (∀ resp e', r = inr resp → first_choice_content resp = inl e' → e = e')
    ∧ (∀ resp v, r = inr resp → first_choice_content resp = inr v → e = AttributeError)
    ∧ sent w (get_agent_response U messages w) = [(MODEL_NAME U, cur)]
    ∧ heap w' = heap w1
    ∧ provider w' = p
    ∧ returned (get_agent_response U messages w) = None.
Proof.
  intros Hcur Hl Hcall Hbad.
  pose proof (get_agent_response_after U w messages w1 l cur Hcur Hl) as Hrun.
  assert (∃ e, reply_to U w1 cur = inl e
               ∧ (∀ e', r = inl e' → e = e')
               ∧ (∀ resp e', r = inr resp → first_choice_content resp = inl e' → e = e')
               ∧ (∀ resp v, r = inr resp → first_choice_content resp = inr v → e = AttributeError))
    as (e & Hreply & He1 & He2 & He3).
  { unfold reply_to. rewrite Hcall. simpl.
    destruct Hbad as [[e ->]|(resp & -> & Hcontent)]; simpl.
    - exists e. split; [done|]. split; [by intros ? [= ->]|done].
    - unfold assistant_reply_content.
      destruct (first_choice_content resp) as [e|v] eqn:Hv; simpl.
      + exists e. split; [done|]. split; [done|].
        split; intros ? ? [= <-]; congruence.
      + destruct v; try (by eexists; split; [done|]; split; [done|];
                         split; intros ? ? [= <-]; congruence).
        by destruct (Hcontent s). }
  rewrite Hreply in Hrun. exists (after_call U w1 cur), e.
  destruct (current_messages_grows w messages w1 l Hcur) as [(_ & _ & _ & Hcalls) _].
  rewrite Hrun. split_and!; [done..| |done| |done].
  - apply sent_one. simpl. by rewrite Hcalls.
  - simpl. by rewrite Hcall.
Qed.

(** Importing the module reads the model name from the environment as
    [load_dotenv] left it, and raises nothing. *)
Lemma import_utils_run w0 :
  ∃ w0' U, import_utils w0 = (w0', inr U)
    ∧ environ w0' = dotenv false (environ w0)
    ∧ MODEL_NAME U = default "gpt-4o-mini" (environ w0' !! "MODEL_NAME").
Proof. by eexists _, _. Qed.

(** C6. The module, imported in any world [w0], binds [MODEL_NAME] to the
    value of the environment variable of that name, or to "gpt-4o-mini" when
    there is none. A later run, in any world [w] and on any history of
    messages that have a role, calls the provider once, with that model
    name and with the whole conversation: the history, or the history after
    the system message. What the run returns is the conversation it sent
    followed by one assistant message. *)
Theorem get_agent_response_one_call w0 w messages hist :
  heap w !! messages = Some hist →
  Forall has_role hist →
  ∃ w0' U,
    import_utils w0 = (w0', inr U)
    ∧ environ w0' = dotenv false (environ w0)
    ∧ MODEL_NAME U = default "gpt-4o-mini" (environ w0' !! "MODEL_NAME")
    ∧ let run := get_agent_response U messages w in
      ∃ cur,
        sent w run = [(MODEL_NAME U, cur)]
        ∧ (cur = hist ∨ cur = message "system" SYSTEM_PROMPT :: hist)
        ∧ ∀ out, returned run = Some out →
            ∃ reply, out = cur ++ [reply] ∧ reply !! "role" = Some "assistant".
Proof.
  intros H Hwf%has_role_first. destruct (import_utils_run w0) as (w0' & U & Himport & Henv & Hname).
  exists w0', U. split; [done|]. split; [done|]. split; [done|]. intros run.
  pose proof (get_agent_response_run U w messages hist H) as Hrun. fold run in Hrun.
  destruct (run_of_inv U w hist run Hrun)
    as [(Hnil & Hnone & _)|(w1 & cur & Hp & Hsent & _)].
  { rewrite Hnone in Hwf. destruct Hwf as [?|[? ?]]; done. }
  exists cur. split; [done|]. split.
  { destruct Hp as [_ [(_ & -> & _)|[_ ->]]]; auto. }
  intros out Hout.
  destruct (run_of_returned U w hist run out Hrun Hout)
    as (w1' & cur' & reply & _ & Hsent' & _ & ->).
  rewrite Hsent in Hsent'. injection Hsent' as <-.
  eexists. split; [done|]. apply message_role.
Qed.

(** C7. The list object passed in is left as it was. A returned list is the
    history, message for message and in the same order, between at most one
    message in front, the system message, and one message behind; a history
    that starts with a "system" message gets nothing in front, so its first
    message, content included, is the first message returned. The list is
    returned whenever the provider answers with a well-formed response. *)
Theorem get_agent_response_keeps_history U w messages hist :
  heap w !! messages = Some hist →
  let run := get_agent_response U messages w in
  heap run.1 !! messages = Some hist
  ∧ (∀ out, returned run = Some out →
       ∃ pre reply,
         out = pre ++ hist ++ [reply]
         ∧ (pre = [] ∨ pre = [message "system" SYSTEM_PROMPT])
         ∧ (first_role hist = Some "system" → pre = [] ∧ head out = head hist)
         ∧ ∀ i m, hist !! i = Some m → out !! (length pre + i) = Some m)
  ∧ (∀ model cur p resp c,
       sent w run = [(model, cur)] →
       completion model cur (provider w) = (p, inr resp) →
       first_choice_content resp = inr (VStr c) →
       is_Some (returned run)).
Proof.
  intros H run.
  pose proof (get_agent_response_run U w messages hist H) as Hrun. fold run in Hrun.
  split; [|split].
  - destruct (run_of_inv U w hist run Hrun)
      as [(_ & _ & -> & _)|(w1 & cur & _ & _ & _ & _ & _ & Hheap & _)]; [done|].
    by eapply lookup_weaken.
  - intros out Hout.
    destruct (run_of_returned U w hist run out Hrun Hout)
      as (w1 & cur & reply & [_ Hp] & _ & _ & ->).
    assert (∃ pre, cur = pre ++ hist
                   ∧ (pre = [] ∨ pre = [message "system" SYSTEM_PROMPT])
                   ∧ (first_role hist = Some "system" → pre = []))
      as (pre & -> & Hpre & Hsys).
    { destruct Hp as [(Hsys & -> & _)|[Hlacks ->]].
      - exists []. auto.
      - exists [message "system" SYSTEM_PROMPT]. split; [done|]. split; [auto|].
        destruct Hlacks as [->|(r & Hr & Hne)]; [done|congruence]. }
    exists pre, (message "assistant" reply). rewrite <- app_assoc.
    split; [done|]. split; [done|]. split.
    + intros Hfirst. rewrite (Hsys Hfirst). split; [done|]. simpl.
      destruct hist; [done|]. done.
    + intros i m Hi. rewrite lookup_app_r by lia.
      replace (length pre + i - length pre) with i by lia.
      by apply lookup_app_l_Some.
  - intros model cur p resp c Hsent Hcall Hcontent.
    destruct (run_of_success U w hist run model cur p resp c Hrun Hsent Hcall Hcontent)
      as (w1 & l & _ & Hl & _ & Hat).
    rewrite (returned_at _ _ Hl). by eexists.
Qed.

Lemma prepared_functional w hist w1 cur w' w1' cur' :
  prepared w hist w1 cur → prepared w' hist w1' cur' → cur = cur'.
Proof.
  intros [_ [(Hsys & -> & _)|[Hlacks ->]]] [_ [(Hsys' & -> & _)|[Hlacks' ->]]];
    try done.
  - destruct Hlacks' as [->|(r & Hr & Hne)]; [done|congruence].
  - destruct Hlacks as [->|(r & Hr & Hne)]; [done|congruence].
Qed.

(** C8. Two runs on equal histories, with equal model names and a provider
    that answers alike in both, end alike: with the same exception, or with
    lists of the same content. A run changes no list object that was there
    and not the environment; the record of calls and the provider's state
    are as the one call to the provider leaves them. *)
Theorem get_agent_response_deterministic U U' w w' messages messages' hist :
  heap w !! messages = Some hist → heap w' !! messages' = Some hist →
  MODEL_NAME U = MODEL_NAME U' →
  (∀ cur, (completion (MODEL_NAME U) cur (provider w)).2
          = (completion (MODEL_NAME U) cur (provider w')).2) →
  let run := get_agent_response U messages w in
  let run' := get_agent_response U' messages' w' in
  outcome run = outcome run'
  ∧ (∀ l xs, heap w !! l = Some xs → heap run.1 !! l = Some xs)
  ∧ environ run.1 = environ w
  ∧ ((calls run.1 = calls w ∧ provider run.1 = provider w)
     ∨ ∃ cur, calls run.1 = calls w ++ [(MODEL_NAME U, cur)]
              ∧ provider run.1 = (completion (MODEL_NAME U) cur (provider w)).1).
Proof.
  intros H H' Hname Hsame run run'.
  pose proof (get_agent_response_run U w messages hist H) as Hrun. fold run in Hrun.
  pose proof (get_agent_response_run U' w' messages' hist H') as Hrun'.
  fold run' in Hrun'.
  destruct (run_of_inv U w hist run Hrun)
    as [(Hnil & Hnone & Heq & _)
       |(w1 & cur & Hp & _ & Hcalls & Hprov & Henv & Hheap & Hend)];
  destruct (run_of_inv U' w' hist run' Hrun')
    as [(Hnil' & Hnone' & Heq' & _)
       |(w1' & cur' & Hp' & _ & _ & _ & _ & _ & Hend')].
  - rewrite Heq, Heq'. simpl. split; [done|]. split; [done|]. split; [done|]. by left.
  - destruct Hp' as [_ [(? & _)|[[->|(r & ? & _)] _]]]; congruence.
  - destruct Hp as [_ [(? & _)|[[->|(r & ? & _)] _]]]; congruence.
  - assert (cur' = cur) as -> by by eapply prepared_functional.
    assert (reply_to U' w' cur = reply_to U w cur) as Hreply.
    { unfold reply_to. by rewrite <- Hname, Hsame. }
    rewrite Hreply in Hend'. split.
    + destruct (reply_to U w cur) as [e|reply].
      * by rewrite Hend, Hend'.
      * destruct Hend as (l & Hl & _ & Hat). destruct Hend' as (l' & Hl' & _ & Hat').
        destruct run as [wr [?|?]], run' as [wr' [?|?]]; simplify_eq/=.
        by rewrite Hat, Hat'.
    + split; [intros l xs Hl; by eapply lookup_weaken|]. split; [done|].
      right. by exists cur.
Qed.

(** C9. Whether a system message is put in front depends on the role of the
    first message alone: the list passed in is itself the conversation
    exactly when its first message has role "system". Then, whatever the
    content of that message, the history is what the provider is sent, and
    what is returned is the history and the reply. *)
Theorem get_agent_response_role_only U w messages hist :
  heap w !! messages = Some hist →
  let run := get_agent_response U messages w in
  ((current_messages messages w).2 = inr messages ↔ first_role hist = Some "system")
  ∧ (first_role hist = Some "system" →
       current_messages messages w = (w, inr messages)
       ∧ sent w run = [(MODEL_NAME U, hist)]
       ∧ ∀ out, returned run = Some out →
           ∃ reply, out = hist ++ [reply] ∧ head out = head hist).
Proof.
  intros H run.
  pose proof (get_agent_response_run U w messages hist H) as Hrun. fold run in Hrun.
  destruct (current_messages_cases w messages hist H)
    as [[Hsys Hcur]|[[Hlacks (w1 & l & Hcur & Hnew & _)]|(_ & Hnone & Hcur)]];
    rewrite Hcur; simpl.
  - split; [done|]. intros _. split; [done|].
    assert (∀ w1 cur, prepared w hist w1 cur → cur = hist) as Hhist.
    { intros w1 cur [_ [(_ & -> & _)|[[->|(r & ? & ?)] _]]]; [done|done|congruence]. }
    split.
    + destruct (run_of_inv U w hist run Hrun)
        as [(_ & ? & _)|(w1 & cur & Hp & Hsent & _)]; [congruence|].
      by rewrite <- (Hhist _ _ Hp).
    + intros out Hout.
      destruct (run_of_returned U w hist run out Hrun Hout)
        as (w1 & cur & reply & Hp & _ & _ & ->).
      rewrite (Hhist _ _ Hp). eexists. split; [done|]. by destruct hist.
  - assert (first_role hist ≠ Some "system") as Hno.
    { destruct Hlacks as [->|(r & ? & ?)]; [done|congruence]. }
    split; [|done]. split; [|done]. intros [= ->]. congruence.
  - split; [|congruence]. split; [done|congruence].
Qed.

(** C10. The condition of line 66 raises nothing on a history every message
    of which has a "role": on the empty history it is true although
    [messages[0]] would raise [IndexError] there, so the subscript is not
    evaluated; on any other it reads the role. The one exception it can
    raise is the [KeyError] of a first message without "role". *)
Theorem lacks_system_message_total w messages hist :
  heap w !! messages = Some hist →
  (hist = [] →
     list_getitem messages 0 w = (w, inl IndexError)
     ∧ lacks_system_message messages w = (w, inr true))
  ∧ (Forall has_role hist →
     ∃ b, lacks_system_message messages w = (w, inr b))
  ∧ (∀ e, (lacks_system_message messages w).2 = inl e →
     e = KeyError (VStr "role")
     ∧ ∃ m rest, hist = m :: rest ∧ m !! "role" = None).
Proof.
  intros H. rewrite (lacks_system_message_run w messages hist H).
  split; [|split].
  - intros ->. split; [by apply list_getitem_empty|done].
  - intros Hroles. destruct Hroles as [|m rest [r Hr] _]; [by eexists|].
    rewrite Hr. by eexists.
  - intros e. destruct hist as [|m rest]; [done|].
    destruct (m !! "role") eqn:Hr; [done|]. simpl. intros [= <-].
    split; [done|]. by exists m, rest.
Qed.

End Claims.

(** ** Further properties of [get_agent_response] *)

Section Further.
Context `{Ext : Externals}.
Implicit Types (w : World) (l messages : loc) (hist cur out : list Message).

(** Line 77 finds a string exactly in the well-shaped responses. *)
Lemma first_choice_content_str resp c :
  first_choice_content resp = inr (VStr c) ↔ well_shaped resp c.
Proof.
  split.
  - unfold first_choice_content, well_shaped. intros H.
    destruct resp as [| | | | |items]; try done. simpl in H.
    destruct (assoc "choices" items) as [choices|] eqn:Hchoices; [|done].
    destruct choices as [| | |s|xs|]; try done; simpl in H.
    { destruct (seq_index (length (chars s)) 0) as [j|]; [|done].
      destruct (chars s !! j); done. }
    destruct xs as [|choice rest]; [done|]. simpl in H.
    destruct choice as [| | | | |citems]; try done. simpl in H.
    destruct (assoc "message" citems) as [msg|] eqn:Hmsg; [|done]. simpl in H.
    destruct msg as [| | | | |mitems]; try done. simpl in H.
    destruct (assoc "content" mitems) as [content|] eqn:Hcontent; [|done].
    injection H as ->. by exists items, citems, rest, mitems.
  - intros (items & citems & rest & mitems & -> & Hchoices & Hmsg & Hcontent).
    unfold first_choice_content. simpl. rewrite Hchoices. simpl.
    rewrite Hmsg. simpl. by rewrite Hcontent.
Qed.

(** Lines 76 to 79 give a string exactly on the well-shaped responses. *)
Lemma assistant_reply_content_inr resp s :
  assistant_reply_content resp = inr s ↔ ∃ c, well_shaped resp c ∧ s = strip c.
Proof.
  unfold assistant_reply_content. split.
  - destruct (first_choice_content resp) as [e|v] eqn:Hv; [done|]. simpl.
    destruct v as [| | |c| |]; try done. simpl. intros [= <-].
    exists c. split; [by apply first_choice_content_str|done].
  - intros (c & Hc%first_choice_content_str & ->). by rewrite Hc.
Qed.

(** How a run ends once the provider has answered its call with [r]. *)
Lemma run_of_answered U w hist run model cur p r :
  run_of U w hist run →
  sent w run = [(model, cur)] →
  completion model cur (provider w) = (p, r) →
  match r ≫= assistant_reply_content with
  | inl e => run.2 = inl e
  | inr s =>
      ∃ w1 l, prepared w hist w1 cur ∧ run.2 = inr l ∧ heap w1 !! l = None
              ∧ heap run.1 !! l = Some (cur ++ [message "assistant" s])
  end.
Proof.
  intros Hrun Hsent Hcall.
  destruct (run_of_inv U w hist run Hrun)
    as [(_ & _ & _ & Hnone)|(w1 & cur' & Hp & Hsent' & _ & _ & _ & _ & Hend)].
  { rewrite Hnone in Hsent. done. }
  rewrite Hsent' in Hsent. injection Hsent as <- <-.
  unfold reply_to in Hend. rewrite Hcall in Hend. simpl in Hend.
  destruct (r ≫= assistant_reply_content) as [e|s].
  - by rewrite Hend.
  - destruct Hend as (l & ? & ? & ?). by exists w1, l.
Qed.

(** A run on a history that starts with a "system" message sends it as it
    is and returns it with one message after it. *)
Lemma run_of_system_first U w hist run :
  first_role hist = Some "system" → run_of U w hist run →
  sent w run = [(MODEL_NAME U, hist)]
  ∧ ∀ out, returned run = Some out → ∃ reply, out = hist ++ [reply].
Proof.
  intros Hsys Hrun.
  assert (∀ w1 cur, prepared w hist w1 cur → cur = hist) as Hhist.
  { intros w1 cur [_ [(_ & -> & _)|[[->|(r & ? & ?)] _]]]; [done|done|congruence]. }
  split.
  - destruct (run_of_inv U w hist run Hrun)
      as [(_ & ? & _)|(w1 & cur & Hp & Hsent & _)]; [congruence|].
    by rewrite <- (Hhist _ _ Hp).
  - intros out Hout.
    destruct (run_of_returned U w hist run out Hrun Hout)
      as (w1 & cur & reply & Hp & _ & _ & ->).
    rewrite (Hhist _ _ Hp). by eexists.
Qed.

(** X1. A run never calls the provider twice. It makes no call exactly when
    the history is not empty and its first item has no "role": the run then
    ends with [KeyError] at line 66 and leaves the world as it was. *)
Theorem get_agent_response_at_most_one_call U w messages hist :
  heap w !! messages = Some hist →
  let run := get_agent_response U messages w in
  (length (sent w run) ≤ 1)%nat
  ∧ (sent w run = [] ↔ hist ≠ [] ∧ first_role hist = None)
  ∧ (hist ≠ [] ∧ first_role hist = None →
     run = (w, inl (KeyError (VStr "role")))).
Proof.
  intros H run.
  pose proof (get_agent_response_run U w messages hist H) as Hrun. fold run in Hrun.
  destruct (run_of_inv U w hist run Hrun)
    as [(Hne & Hnone & Heq & Hsent)|(w1 & cur & [_ Hp] & Hsent & _)];
    rewrite Hsent; simpl.
  - split; [lia|]. split; [done|]. done.
  - assert (¬ (hist ≠ [] ∧ first_role hist = None)) as Hno.
    { intros [Hne Hnone].
      destruct Hp as [(? & _)|[[?|(r & ? & _)] _]]; congruence. }
    split; [lia|]. split; [split; [done|by intros ?]|by intros ?].
Qed.

(** X2. When the provider answers with a well-formed response, the list a
    run returns is a new object: its location was not in use before the
    run, so it is not the list passed in, also when nothing was put in
    front of the history. *)
Theorem get_agent_response_returns_new_list U w messages hist model cur p resp c :
  heap w !! messages = Some hist →
  let run := get_agent_response U messages w in
  sent w run = [(model, cur)] →
  completion model cur (provider w) = (p, inr resp) →
  first_choice_content resp = inr (VStr c) →
  ∃ l, run.2 = inr l ∧ heap w !! l = None ∧ l ≠ messages
       ∧ is_Some (heap run.1 !! l).
Proof.
  intros H run Hsent Hcall Hcontent.
  pose proof (get_agent_response_run U w messages hist H) as Hrun. fold run in Hrun.
  destruct (run_of_success U w hist run model cur p resp c Hrun Hsent Hcall Hcontent)
    as (w1 & l & [Hg _] & Hl & Hnew & Hat).
  assert (heap w !! l = None) as Hnew'.
  { destruct (heap w !! l) eqn:Hwl; [|done].
    apply (grows_lookup _ _ _ _ Hg) in Hwl. congruence. }
  exists l. split; [done|]. split; [done|]. split; [congruence|by eexists].
Qed.

(** X3. The next turn: a run on the list an earlier run returned sends that
    list as it is, with no second system message, and what it returns is
    that list and one more message. *)
Theorem get_agent_response_next_turn U U' w messages hist w' l out :
  heap w !! messages = Some hist →
  get_agent_response U messages w = (w', inr l) →
  heap w' !! l = Some out →
  let run' := get_agent_response U' l w' in
  sent w' run' = [(MODEL_NAME U', out)]
  ∧ ∀ out', returned run' = Some out' →
      ∃ reply, out' = out ++ [reply] ∧ length out' = length out + 1.
Proof.
  intros H Hfirst Hout run'.
  pose proof (get_agent_response_run U w messages hist H) as Hrun.
  assert (first_role out = Some "system") as Hsys.
  { destruct (run_of_returned U w hist _ out Hrun) as (w1 & cur & reply & Hp & _ & _ & ->).
    - by rewrite Hfirst.
    - apply prepared_first_role in Hp. by destruct cur. }
  pose proof (get_agent_response_run U' w' l out Hout) as Hrun'. fold run' in Hrun'.
  destruct (run_of_system_first U' w' out run' Hsys Hrun') as [Hsent Hret].
  split; [done|]. intros out' Hout'. destruct (Hret out' Hout') as [reply ->].
  exists reply. split; [done|]. rewrite length_app. simpl. lia.
Qed.

(** X4. Only the first message is looked at: the conversation sent has the
    system messages of the history, wherever they stand, and one more
    unless the first message of the history is one of them. A history with
    a system message further down is sent with two. *)
Theorem get_agent_response_system_count U w messages hist model cur :
  heap w !! messages = Some hist →
  sent w (get_agent_response U messages w) = [(model, cur)] →
  length (system_messages cur)
  = length (system_messages hist)
    + (if decide (first_role hist = Some "system") then 0 else 1).
Proof.
  intros H Hsent.
  pose proof (get_agent_response_run U w messages hist H) as Hrun.
  destruct (run_of_inv U w hist _ Hrun)
    as [(_ & _ & _ & Hnone)|(w1 & cur' & [_ Hp] & Hsent' & _)].
  { rewrite Hnone in Hsent. done. }
  rewrite Hsent' in Hsent. injection Hsent as <- <-.
  destruct Hp as [(Hsys & -> & _)|[Hlacks ->]].
  - rewrite decide_True by done. lia.
  - rewrite decide_False.
    + unfold system_messages. rewrite filter_cons_True by apply message_role.
      simpl. lia.
    + destruct Hlacks as [->|(r & Hr & Hne)]; [done|congruence].
Qed.

(** X5. Once the provider was called, the run returns a list exactly when
    the provider answered, and with a well-shaped response: a dict whose
    "choices" is a list that starts with a dict whose "message" is a dict
    whose "content" is a string. *)
Theorem get_agent_response_returns_iff U w messages hist model cur p r :
  heap w !! messages = Some hist →
  let run := get_agent_response U messages w in
  sent w run = [(model, cur)] →
  completion model cur (provider w) = (p, r) →
  (is_Some (returned run) ↔ ∃ resp c, r = inr resp ∧ well_shaped resp c).
Proof.
  intros H run Hsent Hcall.
  pose proof (get_agent_response_run U w messages hist H) as Hrun. fold run in Hrun.
  pose proof (run_of_answered U w hist run model cur p r Hrun Hsent Hcall) as Hend.
  split.
  - intros [out Hout]. destruct r as [e|resp]; simpl in Hend.
    { by rewrite (returned_raise _ _ Hend) in Hout. }
    destruct (assistant_reply_content resp) as [e|s] eqn:Hs.
    { by rewrite (returned_raise _ _ Hend) in Hout. }
    apply assistant_reply_content_inr in Hs as (c & Hc & _). by exists resp, c.
  - intros (resp & c & -> & Hc). simpl in Hend.
    assert (assistant_reply_content resp = inr (strip c)) as Hs.
    { apply assistant_reply_content_inr. by exists c. }
    rewrite Hs in Hend. destruct Hend as (w1 & l & _ & Hl & _ & Hat).
    rewrite (returned_at _ _ Hl). by eexists.
Qed.

(** X6. What a run raises on the answers that are not well shaped, after
    the one call: [TypeError] when the response is no dict, [KeyError]
    "choices" when the dict has no such key, [IndexError] when the list of
    choices is empty, [KeyError] "message" or "content" when the first
    choice or its message is a dict without that key. *)
Theorem get_agent_response_malformed U w messages hist model cur p resp :
  heap w !! messages = Some hist →
  let run := get_agent_response U messages w in
  sent w run = [(model, cur)] →
  completion model cur (provider w) = (p, inr resp) →
  ((∀ items, resp ≠ VDict items) → run.2 = inl TypeError)
  ∧ (∀ items, resp = VDict items → assoc "choices" items = None →
       run.2 = inl (KeyError (VStr "choices")))
  ∧ (∀ items, resp = VDict items → assoc "choices" items = Some (VList []) →
       run.2 = inl IndexError)
  ∧ (∀ items citems rest, resp = VDict items →
       assoc "choices" items = Some (VList (VDict citems :: rest)) →
       assoc "message" citems = None →
       run.2 = inl (KeyError (VStr "message")))
  ∧ (∀ items citems rest mitems, resp = VDict items →
       assoc "choices" items = Some (VList (VDict citems :: rest)) →
       assoc "message" citems = Some (VDict mitems) →
       assoc "content" mitems = None →
       run.2 = inl (KeyError (VStr "content"))).
Proof.
  intros H run Hsent Hcall.
  pose proof (get_agent_response_run U w messages hist H) as Hrun. fold run in Hrun.
  pose proof (run_of_answered U w hist run model cur p _ Hrun Hsent Hcall) as Hend.
  simpl in Hend. unfold assistant_reply_content, first_choice_content in Hend.
  split_and!.
  - intros Hno. destruct resp; try done. by destruct (Hno items).
  - intros items -> Hchoices. simpl in Hend. by rewrite Hchoices in Hend.
  - intros items -> Hchoices. simpl in Hend. by rewrite Hchoices in Hend.
  - intros items citems rest -> Hchoices Hmsg. simpl in Hend.
    rewrite Hchoices in Hend. simpl in Hend. by rewrite Hmsg in Hend.
  - intros items citems rest mitems -> Hchoices Hmsg Hcontent. simpl in Hend.
    rewrite Hchoices in Hend. simpl in Hend. rewrite Hmsg in Hend. simpl in Hend.
    by rewrite Hcontent in Hend.
Qed.

(** X7. A reply of white space only, of whichever code points, is not
    turned down: the run returns, and the assistant message it appends has
    the empty string as content. *)
Theorem get_agent_response_blank_reply U w messages hist model cur p resp c :
  heap w !! messages = Some hist →
  let run := get_agent_response U messages w in
  sent w run = [(model, cur)] →
  completion model cur (provider w) = (p, inr resp) →
  first_choice_content resp = inr (VStr c) →
  all_space c = true →
  ∃ out, returned run = Some out ∧ last out = Some (message "assistant" "").
Proof.
  intros H run Hsent Hcall Hcontent Hblank.
  pose proof (get_agent_response_run U w messages hist H) as Hrun. fold run in Hrun.
  destruct (run_of_success U w hist run model cur p resp c Hrun Hsent Hcall Hcontent)
    as (w1 & l & _ & Hl & _ & Hat).
  rewrite (strip_all_space c Hblank) in Hat.
  eexists. rewrite (returned_at _ _ Hl). split; [exact Hat|]. by rewrite last_snoc.
Qed.

End Further.

(** ** The claims at work in the kitchen *)

Import Kitchen.

(** The cook is sent the system prompt before a user's question, and a
    conversation with a system message of its own as it is. *)
Lemma get_agent_response_system_prompt_witness :
  sent (day 0) (get_agent_response gpt 2 (day 0)) = [("gpt-4o-mini", sys :: asked)]
  ∧ sent (day 0) (get_agent_response gpt 3 (day 0)) = [("gpt-4o-mini", custom)].
Proof.
  split.
  - refine (proj1 (proj1 (proj2 (proj2
      (get_agent_response_system_prompt (Ext := cook) gpt (day 0) 2 asked _))) _)).
    + reflexivity.
    + right. exists "user". split; [reflexivity|discriminate].
  - refine (proj1 (proj2 (proj2 (proj2
      (get_agent_response_system_prompt (Ext := cook) gpt (day 0) 3 custom _))) _)).
    + reflexivity.
    + reflexivity.
Defined.


(** One question in, three messages out. *)
Lemma get_agent_response_length_witness :
  ∃ out, returned (get_agent_response gpt 2 (day 0)) = Some out ∧ length out = 3.
Proof.
  refine (get_agent_response_length (Ext := cook) gpt (day 0) 2 asked
            "gpt-4o-mini" (sys :: asked) 1%nat
            (response (VStr "  ## Chicken fried rice  "))
            "  ## Chicken fried rice  " _ _ _ _).
  - reflexivity.
  - reflexivity.
  - reflexivity.
  - reflexivity.
Defined.

(** The empty history makes one call. *)
Lemma get_agent_response_starts_with_system_witness :
  ∃ call, sent (day 0) (get_agent_response gpt 1 (day 0)) = [call].
Proof.
  refine (proj2 (proj2
    (get_agent_response_starts_with_system (Ext := cook) gpt (day 0) 1 [] _)) _).
  - reflexivity.
  - constructor.
Defined.

(** A refusal of the provider is what the caller gets. *)
Lemma get_agent_response_propagates_witness :
  (get_agent_response gpt 2 night).2 = inl (ProviderError "AuthenticationError")
  ∧ returned (get_agent_response gpt 2 night) = None.
Proof.
  destruct (get_agent_response_propagates (Ext := closed) gpt night 2
              (current_messages 2 night).1 5 (sys :: asked) 1%nat
              (inl (ProviderError "AuthenticationError")))
    as (w' & e & Hrun & He & _ & _ & _ & _ & _ & Hnone).
  - reflexivity.
  - reflexivity.
  - reflexivity.
  - left. eexists. reflexivity.
  - split; [|exact Hnone]. rewrite Hrun. simpl. f_equal. apply He. reflexivity.
Defined.

(** A module imported where MODEL_NAME is gpt-4o asks for that model, also
    in a world that has no such variable. *)
Lemma get_agent_response_one_call_witness :
  ∃ U cur, (import_utils later).2 = inr U
           ∧ MODEL_NAME U = "gpt-4o"
           ∧ sent (day 3) (get_agent_response U 2 (day 3)) = [("gpt-4o", cur)].
Proof.
  destruct (get_agent_response_one_call (Ext := cook) later (day 3) 2 asked)
    as (w0' & U & Himport & Henv & Hname & cur & Hsent & _).
  - reflexivity.
  - repeat constructor. by eexists.
  - assert (MODEL_NAME U = "gpt-4o") as Hmodel.
    { rewrite Hname, Henv. reflexivity. }
    exists U, cur. rewrite Himport. split; [reflexivity|]. split; [exact Hmodel|].
    rewrite <- Hmodel. exact Hsent.
Defined.

(** The list passed in is as it was after the run. *)
Lemma get_agent_response_keeps_history_witness :
  heap (get_agent_response gpt 3 (day 0)).1 !! 3%positive = Some custom.
Proof.
  refine (proj1 (get_agent_response_keeps_history (Ext := cook) gpt (day 0) 3 custom _)).
  reflexivity.
Defined.

(** The same question, asked in two different worlds, ends alike. *)
Lemma get_agent_response_deterministic_witness :
  outcome (get_agent_response gpt 2 (day 0)) = outcome (get_agent_response gpt 9 later).
Proof.
  refine (proj1 (get_agent_response_deterministic (Ext := cook) gpt gpt (day 0) later
                   2 9 asked _ _ _ _)).
  - reflexivity.
  - reflexivity.
  - reflexivity.
  - intros cur. reflexivity.
Defined.

(** A first message of role system and content custom is kept: the
    conversation is the very list passed in. *)
Lemma get_agent_response_role_only_witness :
  head custom ≫= (.!! "content") = Some "custom"
  ∧ current_messages 3 (day 0) = (day 0, inr 3%positive)
  ∧ sent (day 0) (get_agent_response gpt 3 (day 0)) = [("gpt-4o-mini", custom)].
Proof.
  split; [reflexivity|].
  destruct (proj2 (get_agent_response_role_only (Ext := cook) gpt (day 0) 3 custom
                     ltac:(reflexivity)) ltac:(reflexivity))
    as (Hcur & Hsent & _).
  split; [exact Hcur|exact Hsent].
Defined.

(** The condition holds of the empty list and has a value on a conversation
    of messages with roles. *)
Lemma lacks_system_message_total_witness :
  lacks_system_message 1 (day 0) = (day 0, inr true)
  ∧ ∃ b, lacks_system_message 3 (day 0) = (day 0, inr b).
Proof.
  split.
  - refine (proj2 (proj1
      (lacks_system_message_total (Ext := cook) (day 0) 1 [] _) _)).
    + reflexivity.
    + reflexivity.
  - refine (proj1 (proj2
      (lacks_system_message_total (Ext := cook) (day 0) 3 custom _)) _).
    + reflexivity.
    + repeat (constructor; [by eexists|]). constructor.
Defined.

(** ** The further properties at work *)

Import Pantry.

(** A first item without a role: [KeyError], and the world is as it was. *)
Lemma get_agent_response_at_most_one_call_witness :
  get_agent_response gpt 1 dusk = (dusk, inl (KeyError (VStr "role"))).
Proof.
  refine (proj2 (proj2
    (get_agent_response_at_most_one_call (Ext := cook) gpt dusk 1 nameless _)) _).
  - reflexivity.
  - split; [discriminate|reflexivity].
Defined.

(** The conversation with a system message of its own comes back as a new
    list, not as the list at location 3. *)
Lemma get_agent_response_returns_new_list_witness :
  ∃ l, (get_agent_response gpt 3 (day 0)).2 = inr l
       ∧ heap (day 0) !! l = None ∧ l ≠ 3%positive
       ∧ is_Some (heap (get_agent_response gpt 3 (day 0)).1 !! l).
Proof.
  refine (get_agent_response_returns_new_list (Ext := cook) gpt (day 0) 3 custom
            "gpt-4o-mini" custom 1%nat
            (response (VStr "  ## Chicken fried rice  "))
            "  ## Chicken fried rice  " _ _ _ _); reflexivity.
Defined.

(** A second question, asked on the list the first run returned, is sent
    with the one system message the first run put in front. *)
Lemma get_agent_response_next_turn_witness :
  sent (get_agent_response gpt 2 (day 0)).1
       (get_agent_response gpt 7 (get_agent_response gpt 2 (day 0)).1)
  = [("gpt-4o-mini", sys :: asked ++ [recipe])].
Proof.
  refine (proj1 (get_agent_response_next_turn (Ext := cook) gpt gpt (day 0) 2 asked
                   (get_agent_response gpt 2 (day 0)).1 7
                   (sys :: asked ++ [recipe]) _ _ _)); reflexivity.
Defined.

(** A system message in second place does not count: the cook is sent two. *)
Lemma get_agent_response_system_count_witness :
  length (system_messages (sys :: buried)) = 2.
Proof.
  refine (get_agent_response_system_count (Ext := cook) gpt dusk 2 buried
            "gpt-4o-mini" (sys :: buried) _ _); reflexivity.
Defined.

(** The cook's answer is well shaped, so the run returns. *)
Lemma get_agent_response_returns_iff_witness :
  is_Some (returned (get_agent_response gpt 2 (day 0))).
Proof.
  refine (proj2 (get_agent_response_returns_iff (Ext := cook) gpt (day 0) 2 asked
                   "gpt-4o-mini" (sys :: asked) 1%nat
                   (inr (response (VStr "  ## Chicken fried rice  "))) _ _ _) _).
  - reflexivity.
  - reflexivity.
  - reflexivity.
  - exists (response (VStr "  ## Chicken fried rice  ")), "  ## Chicken fried rice  ".
    split; [reflexivity|]. eexists _, _, _, _. repeat split.
Defined.

(** An answer without choices: [IndexError]. *)
Lemma get_agent_response_malformed_witness :
  (get_agent_response gpt 2 silence).2 = inl IndexError.
Proof.
  refine (proj1 (proj2 (proj2
    (get_agent_response_malformed (Ext := mute) gpt silence 2 asked
       "gpt-4o-mini" (sys :: asked) 1%nat (VDict [("choices", VList [])]) _ _ _)))
    [("choices", VList [])] _ _); reflexivity.
Defined.

(** An answer of a space, an ideographic space and an em space: an
    assistant message with no text. *)
Lemma get_agent_response_blank_reply_witness :
  ∃ out, returned (get_agent_response gpt 2 fog) = Some out
         ∧ last out = Some (message "assistant" "").
Proof.
  refine (get_agent_response_blank_reply (Ext := blank) gpt fog 2 asked
            "gpt-4o-mini" (sys :: asked) 1%nat (response (VStr blanks)) blanks
            _ _ _ _ _); reflexivity.
Defined.
